(** * The external scanner of tree-sitter-zsh (src/scanner.c)

    A shallow embedding of [tree_sitter_zsh_external_scanner_scan] and of
    the four life-cycle hooks, with the cursor ([TSLexer]) made an explicit
    value that is passed in and returned. *)

From Equations Require Import Equations.
From Stdlib Require Import ZArith List Bool Ascii Arith Lia.
Import ListNotations.

Local Open Scope Z_scope.

(** ** Characters

    [lexer->lookahead] is an [int32_t] code point; the scanner only ever
    compares it with four character literals. *)

Definition char_lit (c : ascii) : Z := Z.of_nat (nat_of_ascii c).

Definition CH_BACKSLASH : Z := Eval cbv in char_lit "\"%char.
Definition CH_SPACE : Z := Eval cbv in char_lit " "%char.
Definition CH_TAB : Z := Eval cbv in char_lit "009"%char.
Definition CH_NEWLINE : Z := Eval cbv in char_lit "010"%char.

(** The condition written twice in the source, at the [if] and at the
    [while]: [lookahead == ' ' || lookahead == '\t' || lookahead == '\n']. *)
Definition is_whitespace (c : Z) : bool :=
  (c =? CH_SPACE) || (c =? CH_TAB) || (c =? CH_NEWLINE).

(** ** Token kinds *)

(** [enum TokenType { UNQUOTED_WHITESPACE };] *)
Inductive TokenType : Set := UNQUOTED_WHITESPACE.

(** The enumerator's value, as stored into [result_symbol]. *)
Definition TokenType_value (t : TokenType) : Z :=
  match t with UNQUOTED_WHITESPACE => 0 end.

(** [const bool *valid_symbols], read only at enumerators of [TokenType]. *)
Definition valid_symbols_t : Type := TokenType -> bool.

(** ** The cursor *)

(** Modelled from the spec: the cursor type [TSLexer] is declared by the
    host's header [tree_sitter/parser.h], which the source includes and which
    is not among the sources.  The cursor exposes the next unconsumed
    character, an operation that advances past it and is told by a flag how
    the character relates to the token, and the matched-kind output slot.
    [remaining] is the text not yet consumed; [consumed] is the log of the
    calls of [advance] (oldest first): the character stepped over and the
    flag passed; its length is the cursor's position. *)
Record TSLexer : Type := mkTSLexer {
  consumed : list (Z * bool);
  remaining : list Z;
  result_symbol : Z
}.

(** Modelled from the spec: the lookahead at end of stream is a sentinel
    that is neither whitespace nor a backslash. *)
Definition EOF_LOOKAHEAD : Z := 0.

(** [lexer->lookahead] *)
Definition lookahead (lexer : TSLexer) : Z :=
  match remaining lexer with
  | [] => EOF_LOOKAHEAD
  | c :: _ => c
  end.

(** [lexer->advance(lexer, include_in_token)]; at end of stream there is
    nothing to step over. *)
Definition advance (lexer : TSLexer) (include_in_token : bool) : TSLexer :=
  match remaining lexer with
  | [] => lexer
  | c :: rest =>
      {| consumed := consumed lexer ++ [(c, include_in_token)];
         remaining := rest;
         result_symbol := result_symbol lexer |}
  end.

(** [lexer->result_symbol = s;] *)
Definition set_result_symbol (lexer : TSLexer) (s : Z) : TSLexer :=
  {| consumed := consumed lexer;
     remaining := remaining lexer;
     result_symbol := s |}.

(** Number of characters consumed so far. *)
Definition position (lexer : TSLexer) : nat := length (consumed lexer).

(** Modelled from the spec: the host code that builds the token's text is
    not among the sources.  [advance] records whether the consumed
    character counts toward the matched token's text
    ([advance(include_in_token)]): a character stepped over with the flag
    set is part of the text, one stepped over with the flag clear (the
    "do not include in token" flag) is consumed but left out of it.
    [token_text start lexer] is the text of the token of a call that was
    entered at position [start]. *)
Definition token_text (start : nat) (lexer : TSLexer) : list Z :=
  map fst (filter snd (skipn start (consumed lexer))).

(** ** Life-cycle hooks *)

(** [void *]: the scanner's payload. *)
Inductive void_ptr : Set :=
| NULL
| Ptr (addr : Z).

Definition tree_sitter_zsh_external_scanner_create : void_ptr := NULL.

Definition tree_sitter_zsh_external_scanner_destroy (p : void_ptr) : unit := tt.

(** Returns the number of bytes written; the buffer is left as it is. *)
Definition tree_sitter_zsh_external_scanner_serialize
  (payload : void_ptr) (buffer : list Z) : Z * list Z := (0, buffer).

Definition tree_sitter_zsh_external_scanner_deserialize
  (p : void_ptr) (b : list Z) (n : Z) : unit := tt.

(** ** The scan hook *)

(** Keeps the outcome of a test together with the equation that records
    it, for the termination argument of the loop. *)
Definition inspect {A : Type} (a : A) : {b : A | a = b} := exist _ a eq_refl.

(** The loop
    [while (lookahead == ' ' || lookahead == '\t' || lookahead == '\n')
       lexer->advance(lexer, false);]
    It recurses on the cursor after [advance]; the unconsumed input gets
    shorter at each turn because the end-of-stream lookahead is not
    whitespace. *)
Equations? while_whitespace (lexer : TSLexer) : TSLexer
  by wf (length (remaining lexer)) lt :=
  while_whitespace lexer with inspect (is_whitespace (lookahead lexer)) := {
    | exist _ true Hws => while_whitespace (advance lexer false)
    | exist _ false _ => lexer }.
Proof.
  unfold lookahead, advance in *.
  destruct (remaining lexer); simpl in *.
  - discriminate Hws.
  - lia.
Qed.

Definition tree_sitter_zsh_external_scanner_scan
  (payload : void_ptr) (lexer : TSLexer) (valid_symbols : valid_symbols_t)
  : bool * TSLexer :=
  if valid_symbols UNQUOTED_WHITESPACE then
    let lexer1 :=
      if lookahead lexer =? CH_BACKSLASH then advance lexer false else lexer in
    if is_whitespace (lookahead lexer1) then
      let lexer2 := while_whitespace lexer1 in
      (true, set_result_symbol lexer2 (TokenType_value UNQUOTED_WHITESPACE))
    else (false, lexer1)
  else (false, lexer).

(** ** Describing what a call consumes *)

(** The maximal leading run of space, tab and newline of a text, and what
    follows it. *)
Fixpoint ws_run (cs : list Z) : list Z :=
  match cs with
  | c :: cs' => if is_whitespace c then c :: ws_run cs' else []
  | [] => []
  end.

Fixpoint ws_rest (cs : list Z) : list Z :=
  match cs with
  | c :: cs' => if is_whitespace c then ws_rest cs' else cs
  | [] => []
  end.

(** The first character of a text, as the cursor would show it. *)
Definition first_char (cs : list Z) : Z :=
  match cs with
  | [] => EOF_LOOKAHEAD
  | c :: _ => c
  end.

(** The log entries of stepping over [cs], each with flag [false]. *)
Definition consumed_entries (cs : list Z) : list (Z * bool) :=
  map (fun c => (c, false)) cs.

(** [steps_over lexer cs lexer']: between the two cursors exactly the
    characters [cs] were stepped over, in order, each by a call
    [advance(lexer, false)]; the text itself is the same. *)
Definition steps_over (lexer : TSLexer) (cs : list Z) (lexer' : TSLexer) : Prop :=
  consumed lexer' = consumed lexer ++ consumed_entries cs /\
  remaining lexer = cs ++ remaining lexer'.

(** One execution of the source's [while] loop, with its number of turns:
    the loop leaves when the lookahead is not whitespace, and otherwise
    calls [advance(lexer, false)] and tests again. *)
Inductive loop_run : nat -> TSLexer -> TSLexer -> Prop :=
| loop_leave lexer :
    is_whitespace (lookahead lexer) = false ->
    loop_run 0 lexer lexer
| loop_turn n lexer lexer' :
    is_whitespace (lookahead lexer) = true ->
    loop_run n (advance lexer false) lexer' ->
    loop_run (S n) lexer lexer'.

(** The five ways through the function, as a view of a call: the symbol not
    valid; a whitespace lookahead; a lookahead that is neither whitespace
    nor a backslash; a backslash with whitespace behind it; a backslash
    with something else (or nothing) behind it. *)
Inductive scan_view (lexer : TSLexer) (valid_symbols : valid_symbols_t)
  : bool * TSLexer -> Prop :=
| view_not_valid :
    valid_symbols UNQUOTED_WHITESPACE = false ->
    scan_view lexer valid_symbols (false, lexer)
| view_whitespace :
    valid_symbols UNQUOTED_WHITESPACE = true ->
    is_whitespace (lookahead lexer) = true ->
    scan_view lexer valid_symbols
      (true,
       mkTSLexer
         (consumed lexer ++ consumed_entries (ws_run (remaining lexer)))
         (ws_rest (remaining lexer))
         (TokenType_value UNQUOTED_WHITESPACE))
| view_other :
    valid_symbols UNQUOTED_WHITESPACE = true ->
    lookahead lexer <> CH_BACKSLASH ->
    is_whitespace (lookahead lexer) = false ->
    scan_view lexer valid_symbols (false, lexer)
| view_backslash_whitespace rest :
    valid_symbols UNQUOTED_WHITESPACE = true ->
    remaining lexer = CH_BACKSLASH :: rest ->
    is_whitespace (first_char rest) = true ->
    scan_view lexer valid_symbols
      (true,
       mkTSLexer
         (consumed lexer ++ consumed_entries (CH_BACKSLASH :: ws_run rest))
         (ws_rest rest)
         (TokenType_value UNQUOTED_WHITESPACE))
| view_backslash_other rest :
    valid_symbols UNQUOTED_WHITESPACE = true ->
    remaining lexer = CH_BACKSLASH :: rest ->
    is_whitespace (first_char rest) = false ->
    scan_view lexer valid_symbols
      (false,
       mkTSLexer (consumed lexer ++ consumed_entries [CH_BACKSLASH])
                 rest (result_symbol lexer)).

(** The log of the calls of [advance] made between two cursors of one
    call. *)
Definition advance_calls (lexer lexer' : TSLexer) : list (Z * bool) :=
  skipn (position lexer) (consumed lexer').

(** The text behind the optional leading backslash. *)
Definition skip_backslash (cs : list Z) : list Z :=
  match cs with
  | c :: rest => if c =? CH_BACKSLASH then rest else cs
  | [] => []
  end.

(** The cursor at the same text with everything else forgotten: nothing
    consumed yet, matched-kind slot cleared. *)
Definition rebase (lexer : TSLexer) : TSLexer :=
  mkTSLexer [] (remaining lexer) 0.

(** The optional leading backslash of a text, as a text of its own. *)
Definition backslash_prefix (cs : list Z) : list Z :=
  match cs with
  | c :: _ => if c =? CH_BACKSLASH then [c] else []
  | [] => []
  end.

(** ** Sample inputs *)

Definition CH_x : Z := Eval cbv in char_lit "x"%char.

(** Every symbol valid; no symbol valid. *)
Definition all_valid : valid_symbols_t := fun _ => true.
Definition none_valid : valid_symbols_t := fun _ => false.

(** Space, tab, newline, then x. *)
Definition lexer_whitespace_x : TSLexer :=
  mkTSLexer [] [CH_SPACE; CH_TAB; CH_NEWLINE; CH_x] 7.

(** Backslash, then x. *)
Definition lexer_backslash_x : TSLexer :=
  mkTSLexer [] [CH_BACKSLASH; CH_x] 7.

(** Backslash, two spaces, then x. *)
Definition lexer_backslash_spaces_x : TSLexer :=
  mkTSLexer [] [CH_BACKSLASH; CH_SPACE; CH_SPACE; CH_x] 7.

(** The same text as [lexer_backslash_spaces_x], reached after an x was
    consumed, with another content of the matched-kind slot. *)
Definition lexer_backslash_spaces_x_later : TSLexer :=
  mkTSLexer [(CH_x, false)] [CH_BACKSLASH; CH_SPACE; CH_SPACE; CH_x] 0.

(** At the end of the stream. *)
Definition lexer_at_eof : TSLexer :=
  mkTSLexer [(CH_x, false)] [] 7.

(** Backslash, two spaces, and the end of the stream. *)
Definition lexer_backslash_spaces_eof : TSLexer :=
  mkTSLexer [] [CH_BACKSLASH; CH_SPACE; CH_SPACE] 7.

(** ** Basic facts *)

Lemma is_whitespace_cases (c : Z) :
  is_whitespace c = true <-> c = CH_SPACE \/ c = CH_TAB \/ c = CH_NEWLINE.
Proof.
  unfold is_whitespace. rewrite !orb_true_iff, !Z.eqb_eq. tauto.
Qed.

Lemma eof_not_whitespace : is_whitespace EOF_LOOKAHEAD = false.
Proof. reflexivity. Qed.

Lemma eof_not_backslash : EOF_LOOKAHEAD <> CH_BACKSLASH.
Proof. discriminate. Qed.

Lemma advance_cons (lexer : TSLexer) (flag : bool) (c : Z) (rest : list Z) :
  remaining lexer = c :: rest ->
  advance lexer flag =
    mkTSLexer (consumed lexer ++ [(c, flag)]) rest (result_symbol lexer).
Proof. intros H. unfold advance. rewrite H. reflexivity. Qed.

Lemma ws_run_rest (cs : list Z) : ws_run cs ++ ws_rest cs = cs.
Proof.
  induction cs as [|c cs IH]; simpl; [reflexivity|].
  destruct (is_whitespace c); simpl; [now rewrite IH | reflexivity].
Qed.

Lemma ws_run_all_whitespace (cs : list Z) :
  Forall (fun c => is_whitespace c = true) (ws_run cs).
Proof.
  induction cs as [|c cs IH]; simpl; [constructor|].
  destruct (is_whitespace c) eqn:E; constructor; assumption.
Qed.

Lemma ws_rest_first_char (cs : list Z) :
  is_whitespace (first_char (ws_rest cs)) = false.
Proof.
  induction cs as [|c cs IH]; simpl; [reflexivity|].
  destruct (is_whitespace c) eqn:E; [exact IH | exact E].
Qed.

Lemma ws_run_length (cs : list Z) : (length (ws_run cs) <= length cs)%nat.
Proof.
  induction cs as [|c cs IH]; simpl; [lia|].
  destruct (is_whitespace c); simpl; lia.
Qed.

(** The run is maximal: any prefix made of whitespace only is a prefix of
    the run. *)
Lemma ws_run_maximal (pre post : list Z) :
  Forall (fun c => is_whitespace c = true) pre ->
  exists more, ws_run (pre ++ post) = pre ++ more.
Proof.
  induction 1 as [|c pre Hc _ IH]; simpl.
  - eexists; reflexivity.
  - rewrite Hc. destruct IH as [more ->]. exists more. reflexivity.
Qed.

(** ** The loop *)

Lemma while_whitespace_stop (lexer : TSLexer) :
  is_whitespace (lookahead lexer) = false -> while_whitespace lexer = lexer.
Proof.
  intros H. rewrite while_whitespace_equation_1.
  unfold while_whitespace_unfold_clause_1.
  generalize (inspect (is_whitespace (lookahead lexer))).
  intros [[|] E]; [congruence | reflexivity].
Qed.

Lemma while_whitespace_turn (lexer : TSLexer) :
  is_whitespace (lookahead lexer) = true ->
  while_whitespace lexer = while_whitespace (advance lexer false).
Proof.
  intros H. rewrite while_whitespace_equation_1 at 1.
  unfold while_whitespace_unfold_clause_1.
  generalize (inspect (is_whitespace (lookahead lexer))).
  intros [[|] E]; [reflexivity | congruence].
Qed.

(** What the loop computes: it steps over the maximal whitespace run and
    nothing else. *)
Lemma while_whitespace_eq (cs : list Z) :
  forall lexer, remaining lexer = cs ->
  while_whitespace lexer =
    mkTSLexer (consumed lexer ++ consumed_entries (ws_run cs))
              (ws_rest cs) (result_symbol lexer).
Proof.
  induction cs as [|c cs IH]; intros lexer Hrem.
  - rewrite while_whitespace_stop.
    + destruct lexer as [co re rs]; simpl in *. subst re.
      now rewrite app_nil_r.
    + unfold lookahead. now rewrite Hrem.
  - simpl. destruct (is_whitespace c) eqn:Hc.
    + rewrite while_whitespace_turn by (unfold lookahead; now rewrite Hrem).
      rewrite (advance_cons _ _ _ _ Hrem).
      rewrite IH by reflexivity. simpl.
      now rewrite <- app_assoc.
    + rewrite while_whitespace_stop by (unfold lookahead; now rewrite Hrem).
      destruct lexer as [co re rs]; simpl in *. subst re.
      now rewrite app_nil_r.
Qed.

Lemma while_whitespace_lookahead (lexer : TSLexer) :
  is_whitespace (lookahead (while_whitespace lexer)) = false.
Proof.
  rewrite (while_whitespace_eq _ lexer eq_refl).
  unfold lookahead; simpl. apply ws_rest_first_char.
Qed.

(** The function is the result of running the loop, and the loop makes as
    many turns as the run is long. *)
Lemma while_whitespace_loop_run (lexer : TSLexer) :
  loop_run (length (ws_run (remaining lexer))) lexer (while_whitespace lexer).
Proof.
  remember (remaining lexer) as cs eqn:Hrem. symmetry in Hrem.
  revert lexer Hrem.
  induction cs as [|c cs IH]; intros lexer Hrem; simpl.
  - assert (H : is_whitespace (lookahead lexer) = false)
      by (unfold lookahead; now rewrite Hrem).
    rewrite (while_whitespace_stop _ H). now constructor.
  - destruct (is_whitespace c) eqn:Hc.
    + assert (H : is_whitespace (lookahead lexer) = true)
        by (unfold lookahead; now rewrite Hrem).
      rewrite (while_whitespace_turn _ H). simpl.
      apply loop_turn; [exact H|].
      apply IH. now rewrite (advance_cons _ _ _ _ Hrem).
    + assert (H : is_whitespace (lookahead lexer) = false)
        by (unfold lookahead; now rewrite Hrem).
      rewrite (while_whitespace_stop _ H). now constructor.
Qed.

(** The loop has one execution only. *)
Lemma loop_run_functional n lexer lexer1 :
  loop_run n lexer lexer1 ->
  forall m lexer2, loop_run m lexer lexer2 -> n = m /\ lexer1 = lexer2.
Proof.
  induction 1 as [l Hl | n l l' Hl Hrun IH]; intros m lexer2 H2.
  - inversion H2; subst; [split; reflexivity | congruence].
  - inversion H2; subst; [congruence|].
    match goal with H : loop_run _ (advance l false) lexer2 |- _ =>
      destruct (IH _ _ H) as [-> ->] end.
    split; reflexivity.
Qed.

(** ** The scan hook, case by case *)

Lemma scan_not_valid payload lexer (valid_symbols : valid_symbols_t) :
  valid_symbols UNQUOTED_WHITESPACE = false ->
  tree_sitter_zsh_external_scanner_scan payload lexer valid_symbols
  = (false, lexer).
Proof.
  intros H. unfold tree_sitter_zsh_external_scanner_scan. now rewrite H.
Qed.

(** Valid, lookahead a whitespace character. *)
Lemma scan_whitespace payload lexer (valid_symbols : valid_symbols_t) :
  valid_symbols UNQUOTED_WHITESPACE = true ->
  is_whitespace (lookahead lexer) = true ->
  tree_sitter_zsh_external_scanner_scan payload lexer valid_symbols
  = (true,
     mkTSLexer (consumed lexer ++ consumed_entries (ws_run (remaining lexer)))
               (ws_rest (remaining lexer))
               (TokenType_value UNQUOTED_WHITESPACE)).
Proof.
  intros Hv Hws. unfold tree_sitter_zsh_external_scanner_scan. rewrite Hv.
  assert (Hb : (lookahead lexer =? CH_BACKSLASH) = false).
  { apply Z.eqb_neq. intros E. rewrite E in Hws. discriminate Hws. }
  rewrite Hb. cbv zeta. rewrite Hws.
  rewrite (while_whitespace_eq _ lexer eq_refl). reflexivity.
Qed.

(** Valid, lookahead neither a backslash nor whitespace (end of stream
    included). *)
Lemma scan_other payload lexer (valid_symbols : valid_symbols_t) :
  valid_symbols UNQUOTED_WHITESPACE = true ->
  lookahead lexer <> CH_BACKSLASH ->
  is_whitespace (lookahead lexer) = false ->
  tree_sitter_zsh_external_scanner_scan payload lexer valid_symbols
  = (false, lexer).
Proof.
  intros Hv Hb Hws. unfold tree_sitter_zsh_external_scanner_scan. rewrite Hv.
  apply Z.eqb_neq in Hb. rewrite Hb. cbv zeta. now rewrite Hws.
Qed.

(** Valid, lookahead a backslash, whitespace behind it. *)
Lemma scan_backslash_whitespace payload lexer (valid_symbols : valid_symbols_t)
  (rest : list Z) :
  valid_symbols UNQUOTED_WHITESPACE = true ->
  remaining lexer = CH_BACKSLASH :: rest ->
  is_whitespace (first_char rest) = true ->
  tree_sitter_zsh_external_scanner_scan payload lexer valid_symbols
  = (true,
     mkTSLexer (consumed lexer
                  ++ consumed_entries (CH_BACKSLASH :: ws_run rest))
               (ws_rest rest)
               (TokenType_value UNQUOTED_WHITESPACE)).
Proof.
  intros Hv Hrem Hws. unfold tree_sitter_zsh_external_scanner_scan. rewrite Hv.
  assert (Hb : (lookahead lexer =? CH_BACKSLASH) = true)
    by (unfold lookahead; now rewrite Hrem).
  rewrite Hb. cbv zeta. rewrite (advance_cons _ _ _ _ Hrem).
  unfold lookahead at 1. simpl remaining. fold (first_char rest). rewrite Hws.
  rewrite (while_whitespace_eq rest) by reflexivity. simpl.
  now rewrite <- app_assoc.
Qed.

(** Valid, lookahead a backslash, no whitespace behind it. *)
Lemma scan_backslash_other payload lexer (valid_symbols : valid_symbols_t)
  (rest : list Z) :
  valid_symbols UNQUOTED_WHITESPACE = true ->
  remaining lexer = CH_BACKSLASH :: rest ->
  is_whitespace (first_char rest) = false ->
  tree_sitter_zsh_external_scanner_scan payload lexer valid_symbols
  = (false,
     mkTSLexer (consumed lexer ++ consumed_entries [CH_BACKSLASH])
               rest (result_symbol lexer)).
Proof.
  intros Hv Hrem Hws. unfold tree_sitter_zsh_external_scanner_scan. rewrite Hv.
  assert (Hb : (lookahead lexer =? CH_BACKSLASH) = true)
    by (unfold lookahead; now rewrite Hrem).
  rewrite Hb. cbv zeta. rewrite (advance_cons _ _ _ _ Hrem).
  unfold lookahead at 1. simpl remaining. fold (first_char rest). rewrite Hws.
  reflexivity.
Qed.

Lemma lookahead_backslash_cons (lexer : TSLexer) :
  lookahead lexer = CH_BACKSLASH ->
  exists rest, remaining lexer = CH_BACKSLASH :: rest.
Proof.
  unfold lookahead. destruct (remaining lexer) as [|c rest]; intros H.
  - discriminate H.
  - exists rest. now rewrite H.
Qed.

Lemma scan_view_of payload lexer valid_symbols :
  scan_view lexer valid_symbols
    (tree_sitter_zsh_external_scanner_scan payload lexer valid_symbols).
Proof.
  destruct (valid_symbols UNQUOTED_WHITESPACE) eqn:Hv.
  2: { rewrite (scan_not_valid _ _ _ Hv). now apply view_not_valid. }
  destruct (Z.eq_dec (lookahead lexer) CH_BACKSLASH) as [Hb | Hb].
  - destruct (lookahead_backslash_cons _ Hb) as [rest Hrem].
    destruct (is_whitespace (first_char rest)) eqn:Hws.
    + rewrite (scan_backslash_whitespace _ _ _ _ Hv Hrem Hws).
      now apply view_backslash_whitespace.
    + rewrite (scan_backslash_other _ _ _ _ Hv Hrem Hws).
      now apply view_backslash_other.
  - destruct (is_whitespace (lookahead lexer)) eqn:Hws.
    + rewrite (scan_whitespace _ _ _ Hv Hws). now apply view_whitespace.
    + rewrite (scan_other _ _ _ Hv Hb Hws). now apply view_other.
Qed.

Lemma skipn_length_app {A : Type} (xs ys : list A) :
  skipn (length xs) (xs ++ ys) = ys.
Proof. induction xs as [|x xs IH]; simpl; [reflexivity | exact IH]. Qed.

Lemma consumed_entries_length (cs : list Z) :
  length (consumed_entries cs) = length cs.
Proof. apply length_map. Qed.

Lemma consumed_entries_no_text (cs : list Z) :
  map fst (filter snd (consumed_entries cs)) = [].
Proof. induction cs as [|c cs IH]; simpl; [reflexivity | exact IH]. Qed.

Lemma consumed_entries_chars (cs : list Z) :
  map fst (consumed_entries cs) = cs.
Proof.
  induction cs as [|c cs IH]; simpl; [reflexivity | now rewrite IH].
Qed.

(** A backslash is not whitespace: whitespace holds no backslash. *)
Lemma whitespace_no_backslash (cs : list Z) :
  Forall (fun c => is_whitespace c = true) cs ->
  count_occ Z.eq_dec cs CH_BACKSLASH = 0%nat.
Proof.
  induction 1 as [|c cs Hc _ IH]; simpl; [reflexivity|].
  destruct (Z.eq_dec c CH_BACKSLASH) as [E|_]; [|exact IH].
  rewrite E in Hc. discriminate Hc.
Qed.

Lemma steps_over_position lexer cs lexer' :
  steps_over lexer cs lexer' ->
  position lexer' = (position lexer + length cs)%nat.
Proof.
  intros [Hc _]. unfold position.
  now rewrite Hc, length_app, consumed_entries_length.
Qed.

(** A call sees the cursor only through the text left and the valid-symbol
    set only through one entry: it behaves as the call on the rebased
    cursor, with any payload. *)
Lemma scan_rebase payload lexer (valid_symbols : valid_symbols_t) :
  let r := tree_sitter_zsh_external_scanner_scan payload lexer valid_symbols in
  let r0 := tree_sitter_zsh_external_scanner_scan NULL (rebase lexer)
              (fun _ => valid_symbols UNQUOTED_WHITESPACE) in
  fst r = fst r0 /\
  remaining (snd r) = remaining (snd r0) /\
  consumed (snd r) = consumed lexer ++ consumed (snd r0).
Proof.
  intros r r0. subst r r0.
  destruct (scan_view_of payload lexer valid_symbols)
    as [Hv | Hv Hws | Hv Hb Hws | rest Hv Hrem Hws | rest Hv Hrem Hws];
    cbn [fst snd].
  - rewrite scan_not_valid by exact Hv. simpl. now rewrite app_nil_r.
  - rewrite scan_whitespace by assumption. simpl. auto.
  - rewrite scan_other by assumption. simpl. now rewrite app_nil_r.
  - rewrite (scan_backslash_whitespace _ _ _ rest) by assumption. simpl. auto.
  - rewrite (scan_backslash_other _ _ _ rest) by assumption. simpl. auto.
Qed.

(** * Properties of the scan hook *)

(** Splits a conjunction into its parts, and nothing else. *)
Ltac conjuncts := repeat match goal with |- _ /\ _ => split end.

Section ScanProperties.

Variable payload : void_ptr.
Variable valid_symbols : valid_symbols_t.

(** C1: when the text at the cursor starts with a space, tab or newline
    (so not with a backslash) and UNQUOTED_WHITESPACE is valid, the call
    returns true, steps over exactly the maximal leading run of such
    characters (all of them whitespace, at least one, every whitespace-only
    prefix of the text is a prefix of it, and the lookahead afterwards is
    none of the three), and stores UNQUOTED_WHITESPACE into the matched-kind
    slot. *)
Theorem C1_leading_whitespace_matched (lexer : TSLexer) (c : Z) (rest : list Z) :
  valid_symbols UNQUOTED_WHITESPACE = true ->
  remaining lexer = c :: rest ->
  is_whitespace c = true ->
  let r := tree_sitter_zsh_external_scanner_scan payload lexer valid_symbols in
  fst r = true /\
  steps_over lexer (ws_run (remaining lexer)) (snd r) /\
  ws_run (remaining lexer) = c :: ws_run rest /\
  Forall (fun x => is_whitespace x = true) (ws_run (remaining lexer)) /\
  (forall pre post,
     remaining lexer = pre ++ post ->
     Forall (fun x => is_whitespace x = true) pre ->
     exists more, ws_run (remaining lexer) = pre ++ more) /\
  remaining (snd r) = ws_rest (remaining lexer) /\
  is_whitespace (lookahead (snd r)) = false /\
  position (snd r) = (position lexer + length (ws_run (remaining lexer)))%nat /\
  result_symbol (snd r) = TokenType_value UNQUOTED_WHITESPACE.
Proof.
  intros Hv Hrem Hc r.
  assert (Hws : is_whitespace (lookahead lexer) = true)
    by (unfold lookahead; now rewrite Hrem).
  subst r. rewrite (scan_whitespace _ _ _ Hv Hws). cbn [fst snd].
  assert (Hsteps : steps_over lexer (ws_run (remaining lexer))
            (mkTSLexer
               (consumed lexer ++ consumed_entries (ws_run (remaining lexer)))
               (ws_rest (remaining lexer))
               (TokenType_value UNQUOTED_WHITESPACE))).
  { split; simpl; [reflexivity | symmetry; apply ws_run_rest]. }
  conjuncts.
  - reflexivity.
  - exact Hsteps.
  - rewrite Hrem. simpl. now rewrite Hc.
  - apply ws_run_all_whitespace.
  - intros pre post Hsplit Hpre. rewrite Hsplit.
    now apply ws_run_maximal.
  - reflexivity.
  - unfold lookahead; simpl. apply ws_rest_first_char.
  - apply (steps_over_position _ _ _ Hsteps).
  - reflexivity.
Qed.

(** C2: when UNQUOTED_WHITESPACE is not valid, the call returns false and
    hands the cursor back as it was, whatever the text at the cursor. *)
Theorem C2_not_valid_untouched (lexer : TSLexer) :
  valid_symbols UNQUOTED_WHITESPACE = false ->
  let r := tree_sitter_zsh_external_scanner_scan payload lexer valid_symbols in
  fst r = false /\ snd r = lexer /\ position (snd r) = position lexer.
Proof.
  intros Hv r. subst r. rewrite (scan_not_valid _ _ _ Hv).
  conjuncts; reflexivity.
Qed.

(** C3: with UNQUOTED_WHITESPACE valid, a backslash at the cursor and no
    space, tab or newline behind it (another character, or the end of the
    stream), the call returns false and the cursor is one character further,
    behind the backslash: the step over it is not undone. *)
Theorem C3_backslash_not_rolled_back (lexer : TSLexer) (rest : list Z) :
  valid_symbols UNQUOTED_WHITESPACE = true ->
  remaining lexer = CH_BACKSLASH :: rest ->
  is_whitespace (first_char rest) = false ->
  let r := tree_sitter_zsh_external_scanner_scan payload lexer valid_symbols in
  fst r = false /\
  snd r = advance lexer false /\
  steps_over lexer [CH_BACKSLASH] (snd r) /\
  remaining (snd r) = rest /\
  position (snd r) = S (position lexer).
Proof.
  intros Hv Hrem Hws r. subst r.
  rewrite (scan_backslash_other _ _ _ _ Hv Hrem Hws). cbn [fst snd].
  rewrite (advance_cons _ _ _ _ Hrem).
  conjuncts; try reflexivity.
  - split; simpl; [reflexivity | exact Hrem].
  - unfold position; simpl. rewrite length_app; simpl. lia.
Qed.

(** C4, as amended: when the call returns false, the cursor is left where
    it started unless UNQUOTED_WHITESPACE is valid and the lookahead at
    entry is a backslash; in that case the cursor is exactly one character
    further, behind that backslash. *)
Theorem C4_false_leaves_cursor_or_skips_backslash (lexer : TSLexer) :
  let r := tree_sitter_zsh_external_scanner_scan payload lexer valid_symbols in
  fst r = false ->
  (valid_symbols UNQUOTED_WHITESPACE = true /\ lookahead lexer = CH_BACKSLASH ->
     snd r = advance lexer false /\
     steps_over lexer [CH_BACKSLASH] (snd r) /\
     position (snd r) = S (position lexer)) /\
  (~ (valid_symbols UNQUOTED_WHITESPACE = true /\
      lookahead lexer = CH_BACKSLASH) ->
     snd r = lexer).
Proof.
  intros r Hfalse. subst r.
  destruct (scan_view_of payload lexer valid_symbols)
    as [Hv | Hv Hws | Hv Hb Hws | rest Hv Hrem Hws | rest Hv Hrem Hws];
    cbn [fst snd] in *; try discriminate Hfalse.
  - split; [intros [Hv' _]; congruence | reflexivity].
  - split; [intros [_ Hb']; contradiction | reflexivity].
  - split.
    + intros _. rewrite (advance_cons _ _ _ _ Hrem).
      conjuncts; try reflexivity.
      * split; simpl; [reflexivity | exact Hrem].
      * unfold position; simpl. rewrite length_app; simpl. lia.
    + intros Hn. exfalso. apply Hn. split; [exact Hv|].
      unfold lookahead. now rewrite Hrem.
Qed.

(** C6: on a backslash, two spaces and then a character that is not
    whitespace (such as x), with UNQUOTED_WHITESPACE valid, the call returns
    true, steps over exactly three characters (the backslash and the two
    spaces), leaves the cursor at that character, and stores
    UNQUOTED_WHITESPACE into the matched-kind slot. *)
Theorem C6_backslash_two_spaces (pre : list (Z * bool)) (x : Z) (tail : list Z)
  (old_symbol : Z) :
  valid_symbols UNQUOTED_WHITESPACE = true ->
  is_whitespace x = false ->
  let lexer :=
    mkTSLexer pre (CH_BACKSLASH :: CH_SPACE :: CH_SPACE :: x :: tail)
              old_symbol in
  let r := tree_sitter_zsh_external_scanner_scan payload lexer valid_symbols in
  fst r = true /\
  steps_over lexer [CH_BACKSLASH; CH_SPACE; CH_SPACE] (snd r) /\
  position (snd r) = (position lexer + 3)%nat /\
  remaining (snd r) = x :: tail /\
  lookahead (snd r) = x /\
  result_symbol (snd r) = TokenType_value UNQUOTED_WHITESPACE.
Proof.
  intros Hv Hx lexer r. subst r.
  rewrite (scan_backslash_whitespace payload lexer valid_symbols
             (CH_SPACE :: CH_SPACE :: x :: tail) Hv eq_refl eq_refl).
  cbn [fst snd]. simpl ws_run. simpl ws_rest. rewrite Hx.
  conjuncts; try reflexivity.
  - split; reflexivity.
  - unfold position; simpl. rewrite length_app; simpl. reflexivity.
Qed.


(** C5: with UNQUOTED_WHITESPACE valid and a backslash as lookahead, the
    call steps over the backslash by exactly one call of advance, made with
    the flag false, the "do not include in token" flag; every other call of
    advance steps over a whitespace character, so no second backslash is
    stepped over.  The backslash is consumed and is not part of the text of
    the token. *)
Theorem C5_backslash_advanced_once_excluded (lexer : TSLexer) :
  valid_symbols UNQUOTED_WHITESPACE = true ->
  lookahead lexer = CH_BACKSLASH ->
  let r := tree_sitter_zsh_external_scanner_scan payload lexer valid_symbols in
  exists ws,
    advance_calls lexer (snd r) = (CH_BACKSLASH, false) :: consumed_entries ws /\
    Forall (fun c => is_whitespace c = true) ws /\
    count_occ Z.eq_dec (map fst (advance_calls lexer (snd r))) CH_BACKSLASH
      = 1%nat /\
    position (snd r) = S (position lexer + length ws) /\
    ~ In CH_BACKSLASH (token_text (position lexer) (snd r)).
Proof.
  intros Hv Hb r.
  destruct (lookahead_backslash_cons _ Hb) as [rest Hrem].
  assert (Hgen : forall ws rem' rs,
            Forall (fun c => is_whitespace c = true) ws ->
            let lexer' :=
              mkTSLexer
                (consumed lexer ++ consumed_entries (CH_BACKSLASH :: ws))
                rem' rs in
            advance_calls lexer lexer'
              = (CH_BACKSLASH, false) :: consumed_entries ws /\
            Forall (fun c => is_whitespace c = true) ws /\
            count_occ Z.eq_dec (map fst (advance_calls lexer lexer'))
              CH_BACKSLASH = 1%nat /\
            position lexer' = S (position lexer + length ws) /\
            ~ In CH_BACKSLASH (token_text (position lexer) lexer')).
  { intros ws rem' rs Hall lexer'.
    assert (Hcalls : advance_calls lexer lexer'
                     = (CH_BACKSLASH, false) :: consumed_entries ws).
    { unfold advance_calls, position; simpl. apply skipn_length_app. }
    conjuncts.
    - exact Hcalls.
    - exact Hall.
    - rewrite Hcalls. simpl.
      now rewrite consumed_entries_chars, (whitespace_no_backslash ws Hall).
    - unfold position; simpl.
      rewrite length_app; simpl. rewrite consumed_entries_length. lia.
    - unfold token_text. fold (advance_calls lexer lexer'). rewrite Hcalls.
      simpl. rewrite consumed_entries_no_text. intros []. }
  subst r. destruct (is_whitespace (first_char rest)) eqn:Hws.
  - rewrite (scan_backslash_whitespace _ _ _ _ Hv Hrem Hws). cbn [snd].
    exists (ws_run rest). apply Hgen, ws_run_all_whitespace.
  - rewrite (scan_backslash_other _ _ _ _ Hv Hrem Hws). cbn [snd].
    exists []. apply Hgen. constructor.
Qed.

(** C8: the call ends on every finite text.  The end-of-stream lookahead is
    neither whitespace nor a backslash; from any cursor the loop makes as
    many turns as the whitespace run at the cursor is long, which is no more
    than what is left of the text, and leaves in the very state the function
    computes, with a lookahead that is not whitespace (and the loop has no
    other execution); the whole call steps over no more characters than the
    text has, and among them at most one backslash (none when the lookahead
    at entry is not a backslash): the backslash skip happens at most once;
    and at the end of the stream the call returns false with the cursor as
    it was. *)
Theorem C8_scan_terminates (lexer : TSLexer) :
  let r := tree_sitter_zsh_external_scanner_scan payload lexer valid_symbols in
  (is_whitespace EOF_LOOKAHEAD = false /\ EOF_LOOKAHEAD <> CH_BACKSLASH) /\
  (forall start : TSLexer,
     let turns := length (ws_run (remaining start)) in
     (turns <= length (remaining start))%nat /\
     loop_run turns start (while_whitespace start) /\
     is_whitespace (lookahead (while_whitespace start)) = false /\
     (forall n stop, loop_run n start stop ->
                     n = turns /\ stop = while_whitespace start)) /\
  (exists cs,
     steps_over lexer cs (snd r) /\
     (length cs <= length (remaining lexer))%nat /\
     (count_occ Z.eq_dec cs CH_BACKSLASH <= 1)%nat /\
     (lookahead lexer <> CH_BACKSLASH ->
      count_occ Z.eq_dec cs CH_BACKSLASH = 0%nat)) /\
  (remaining lexer = [] -> r = (false, lexer)).
Proof.
  intros r. conjuncts.
  - exact eof_not_whitespace.
  - exact eof_not_backslash.
  - intros start turns. subst turns. conjuncts.
    + apply ws_run_length.
    + apply while_whitespace_loop_run.
    + apply while_whitespace_lookahead.
    + intros n stop Hrun.
      apply (loop_run_functional _ _ _ Hrun), while_whitespace_loop_run.
  - subst r.
    destruct (scan_view_of payload lexer valid_symbols)
      as [Hv | Hv Hws | Hv Hb Hws | rest Hv Hrem Hws | rest Hv Hrem Hws];
      cbn [snd].
    + exists []. conjuncts; simpl; try lia; try reflexivity.
      split; simpl; [now rewrite app_nil_r | reflexivity].
    + exists (ws_run (remaining lexer)).
      pose proof (whitespace_no_backslash _
                    (ws_run_all_whitespace (remaining lexer))) as Hnone.
      conjuncts.
      * split; simpl; [reflexivity | symmetry; apply ws_run_rest].
      * apply ws_run_length.
      * rewrite Hnone. lia.
      * intros _. exact Hnone.
    + exists []. conjuncts; simpl; try lia; try reflexivity.
      split; simpl; [now rewrite app_nil_r | reflexivity].
    + assert (Hb : lookahead lexer = CH_BACKSLASH)
        by (unfold lookahead; now rewrite Hrem).
      exists (CH_BACKSLASH :: ws_run rest).
      pose proof (whitespace_no_backslash _ (ws_run_all_whitespace rest))
        as Hnone.
      conjuncts.
      * split; simpl; [reflexivity|]. rewrite Hrem. f_equal.
        symmetry; apply ws_run_rest.
      * rewrite Hrem. simpl. pose proof (ws_run_length rest). lia.
      * simpl. rewrite Hnone. lia.
      * intros Hn. contradiction.
    + assert (Hb : lookahead lexer = CH_BACKSLASH)
        by (unfold lookahead; now rewrite Hrem).
      exists [CH_BACKSLASH]. conjuncts.
      * split; simpl; [reflexivity | exact Hrem].
      * rewrite Hrem. simpl. lia.
      * simpl. lia.
      * intros Hn. contradiction.
  - intros Hnil. subst r.
    destruct (valid_symbols UNQUOTED_WHITESPACE) eqn:Hv.
    + apply scan_other; [exact Hv | |]; unfold lookahead; rewrite Hnil.
      * exact eof_not_backslash.
      * exact eof_not_whitespace.
    + now apply scan_not_valid.
Qed.

(** C9: a call changes nothing but the cursor's position and, only when it
    returns true, the matched-kind slot.  The cursor handed back differs
    from the one received by some characters of the text stepped over, in
    order (the text itself and the log of what was consumed before are
    kept); the slot holds UNQUOTED_WHITESPACE after a call that returns
    true and its old content after a call that returns false. *)
Theorem C9_only_position_and_result_symbol (lexer : TSLexer) :
  let r := tree_sitter_zsh_external_scanner_scan payload lexer valid_symbols in
  (exists cs,
     steps_over lexer cs (snd r) /\
     snd r = mkTSLexer (consumed lexer ++ consumed_entries cs)
                       (skipn (length cs) (remaining lexer))
                       (if fst r then TokenType_value UNQUOTED_WHITESPACE
                        else result_symbol lexer)) /\
  (fst r = false -> result_symbol (snd r) = result_symbol lexer) /\
  (fst r = true ->
     result_symbol (snd r) = TokenType_value UNQUOTED_WHITESPACE).
Proof.
  intros r.
  assert (Hsteps : exists cs,
            steps_over lexer cs (snd r) /\
            result_symbol (snd r) =
              (if fst r then TokenType_value UNQUOTED_WHITESPACE
               else result_symbol lexer)).
  { subst r.
    destruct (scan_view_of payload lexer valid_symbols)
      as [Hv | Hv Hws | Hv Hb Hws | rest Hv Hrem Hws | rest Hv Hrem Hws];
      cbn [fst snd].
    - exists []. repeat split; simpl. now rewrite app_nil_r.
    - exists (ws_run (remaining lexer)). repeat split; simpl.
      symmetry; apply ws_run_rest.
    - exists []. repeat split; simpl. now rewrite app_nil_r.
    - exists (CH_BACKSLASH :: ws_run rest). repeat split; simpl.
      rewrite Hrem. f_equal. symmetry; apply ws_run_rest.
    - exists [CH_BACKSLASH]. repeat split; simpl. exact Hrem. }
  destruct Hsteps as [cs [[Hcons Hrem] Hsym]].
  conjuncts.
  - exists cs. conjuncts.
    + split; assumption.
    + destruct (snd r) as [co re rs]; simpl in *.
      rewrite Hcons, Hrem, skipn_length_app, Hsym. reflexivity.
  - intros Hf. rewrite Hsym, Hf. reflexivity.
  - intros Ht. rewrite Hsym, Ht. reflexivity.
Qed.

(** C10: the characters a call steps over are all space, tab or newline,
    except possibly one backslash, which is then the first of them; so at
    most one character that is not whitespace is consumed, and the cursor
    moves by at most one plus the length of the whitespace run behind the
    optional backslash. *)
Theorem C10_consumes_whitespace_after_one_backslash (lexer : TSLexer) :
  let r := tree_sitter_zsh_external_scanner_scan payload lexer valid_symbols in
  exists cs,
    steps_over lexer cs (snd r) /\
    position (snd r) = (position lexer + length cs)%nat /\
    (Forall (fun c => is_whitespace c = true) cs \/
     exists ws, cs = CH_BACKSLASH :: ws /\
                Forall (fun c => is_whitespace c = true) ws) /\
    (length (filter (fun c => negb (is_whitespace c)) cs) <= 1)%nat /\
    (length cs
       <= 1 + length (ws_run (skip_backslash (remaining lexer))))%nat.
Proof.
  intros r.
  assert (Hfilter : forall ws,
            Forall (fun c => is_whitespace c = true) ws ->
            filter (fun c => negb (is_whitespace c)) ws = []).
  { induction 1 as [|c ws Hc _ IH]; simpl; [reflexivity|].
    now rewrite Hc. }
  assert (Hskip : forall rest,
            skip_backslash (CH_BACKSLASH :: rest) = rest) by reflexivity.
  assert (Hkeep : is_whitespace (lookahead lexer) = true ->
                  skip_backslash (remaining lexer) = remaining lexer).
  { unfold lookahead, skip_backslash.
    destruct (remaining lexer) as [|c rest]; [reflexivity|].
    intros Hc. destruct (Z.eqb_spec c CH_BACKSLASH) as [E|_]; [|reflexivity].
    rewrite E in Hc. discriminate Hc. }
  assert (Hpos : forall cs, steps_over lexer cs (snd r) ->
            position (snd r) = (position lexer + length cs)%nat)
    by (intros cs; apply steps_over_position).
  subst r.
  destruct (scan_view_of payload lexer valid_symbols)
    as [Hv | Hv Hws | Hv Hb Hws | rest Hv Hrem Hws | rest Hv Hrem Hws];
    cbn [fst snd] in *.
  - assert (Hs : steps_over lexer [] lexer)
      by (split; simpl; [now rewrite app_nil_r | reflexivity]).
    exists []. conjuncts; [exact Hs | exact (Hpos _ Hs) | left; constructor
                          | simpl; lia | simpl; lia].
  - set (l' := mkTSLexer _ _ _) in *.
    assert (Hs : steps_over lexer (ws_run (remaining lexer)) l')
      by (split; simpl; [reflexivity | symmetry; apply ws_run_rest]).
    exists (ws_run (remaining lexer)).
    conjuncts; [exact Hs | exact (Hpos _ Hs) | left; apply ws_run_all_whitespace
               | | ].
    + rewrite (Hfilter _ (ws_run_all_whitespace _)). simpl; lia.
    + rewrite (Hkeep Hws). lia.
  - assert (Hs : steps_over lexer [] lexer)
      by (split; simpl; [now rewrite app_nil_r | reflexivity]).
    exists []. conjuncts; [exact Hs | exact (Hpos _ Hs) | left; constructor
                          | simpl; lia | simpl; lia].
  - set (l' := mkTSLexer _ _ _) in *.
    assert (Hs : steps_over lexer (CH_BACKSLASH :: ws_run rest) l').
    { split; simpl; [reflexivity|]. rewrite Hrem. f_equal.
      symmetry; apply ws_run_rest. }
    exists (CH_BACKSLASH :: ws_run rest).
    conjuncts; [exact Hs | exact (Hpos _ Hs) | | | ].
    + right. exists (ws_run rest). split; [reflexivity|].
      apply ws_run_all_whitespace.
    + simpl. rewrite (Hfilter _ (ws_run_all_whitespace _)). simpl; lia.
    + rewrite Hrem, Hskip. simpl; lia.
  - set (l' := mkTSLexer _ _ _) in *.
    assert (Hs : steps_over lexer [CH_BACKSLASH] l')
      by (split; simpl; [reflexivity | exact Hrem]).
    exists [CH_BACKSLASH].
    conjuncts; [exact Hs | exact (Hpos _ Hs) | | simpl; lia | simpl; lia].
    right. exists []. split; [reflexivity | constructor].
Qed.

End ScanProperties.

(** C7: the outcome of a call is a function of the text left at the cursor
    and of the entry of UNQUOTED_WHITESPACE in the valid-symbol set, and of
    nothing else: not the payload, not what was consumed before, not the old
    content of the matched-kind slot.  Two calls that agree on these return
    the same boolean, move the cursor by the same number of characters
    (over the same characters) and leave the same text; two calls from the
    same cursor also hand back the same cursor. *)
Theorem C7_scan_deterministic
  (payload1 payload2 : void_ptr) (lexer1 lexer2 : TSLexer)
  (valid1 valid2 : valid_symbols_t) :
  remaining lexer1 = remaining lexer2 ->
  valid1 UNQUOTED_WHITESPACE = valid2 UNQUOTED_WHITESPACE ->
  let r1 := tree_sitter_zsh_external_scanner_scan payload1 lexer1 valid1 in
  let r2 := tree_sitter_zsh_external_scanner_scan payload2 lexer2 valid2 in
  fst r1 = fst r2 /\
  (position (snd r1) - position lexer1
   = position (snd r2) - position lexer2)%nat /\
  remaining (snd r1) = remaining (snd r2) /\
  advance_calls lexer1 (snd r1) = advance_calls lexer2 (snd r2) /\
  (lexer1 = lexer2 -> r1 = r2).
Proof.
  intros Hrem Hvalid r1 r2.
  destruct (scan_rebase payload1 lexer1 valid1) as (Hb1 & Hr1 & Hc1).
  destruct (scan_rebase payload2 lexer2 valid2) as (Hb2 & Hr2 & Hc2).
  fold r1 in Hb1, Hr1, Hc1. fold r2 in Hb2, Hr2, Hc2.
  assert (Hbase : rebase lexer2 = rebase lexer1)
    by (unfold rebase; now rewrite Hrem).
  rewrite Hbase, <- Hvalid in Hb2, Hr2, Hc2.
  set (r0 := tree_sitter_zsh_external_scanner_scan NULL
               (rebase lexer1) (fun _ => valid1 UNQUOTED_WHITESPACE)) in *.
  conjuncts.
  - congruence.
  - unfold position. rewrite Hc1, Hc2, !length_app. lia.
  - congruence.
  - unfold advance_calls, position.
    now rewrite Hc1, Hc2, !skipn_length_app.
  - intros ->. subst r1 r2.
    unfold tree_sitter_zsh_external_scanner_scan. now rewrite Hvalid.
Qed.

(** * The properties on sample inputs *)

Lemma C1_witness :
  all_valid UNQUOTED_WHITESPACE = true /\
  is_whitespace CH_SPACE = true /\
  let r := tree_sitter_zsh_external_scanner_scan NULL lexer_whitespace_x
             all_valid in
  fst r = true /\
  position (snd r) = 3%nat /\
  lookahead (snd r) = CH_x /\
  result_symbol (snd r) = 0.
Proof.
  split; [reflexivity|]. split; [reflexivity|].
  destruct (C1_leading_whitespace_matched NULL all_valid lexer_whitespace_x
              CH_SPACE [CH_TAB; CH_NEWLINE; CH_x]
              eq_refl eq_refl eq_refl)
    as (Hb & _ & _ & _ & _ & Hrem & _ & Hpos & Hsym).
  cbv zeta. conjuncts.
  - exact Hb.
  - exact Hpos.
  - unfold lookahead. rewrite Hrem. reflexivity.
  - exact Hsym.
Defined.

Lemma C2_witness :
  none_valid UNQUOTED_WHITESPACE = false /\
  let r := tree_sitter_zsh_external_scanner_scan NULL lexer_whitespace_x
             none_valid in
  fst r = false /\ snd r = lexer_whitespace_x /\
  position (snd r) = position lexer_whitespace_x.
Proof.
  split; [reflexivity|].
  exact (C2_not_valid_untouched NULL none_valid lexer_whitespace_x eq_refl).
Defined.

Lemma C3_witness :
  all_valid UNQUOTED_WHITESPACE = true /\
  is_whitespace (first_char [CH_x]) = false /\
  let r := tree_sitter_zsh_external_scanner_scan NULL lexer_backslash_x
             all_valid in
  fst r = false /\
  snd r = advance lexer_backslash_x false /\
  steps_over lexer_backslash_x [CH_BACKSLASH] (snd r) /\
  remaining (snd r) = [CH_x] /\
  position (snd r) = S (position lexer_backslash_x).
Proof.
  split; [reflexivity|]. split; [reflexivity|].
  exact (C3_backslash_not_rolled_back NULL all_valid lexer_backslash_x [CH_x]
           eq_refl eq_refl eq_refl).
Defined.

(** C4 as stated fails: on a backslash followed by x, with the symbol
    valid, the call returns false and the cursor is one character further. *)
Lemma C4_counterexample :
  ~ (forall payload lexer valid_symbols,
       let r := tree_sitter_zsh_external_scanner_scan payload lexer
                  valid_symbols in
       fst r = false -> position (snd r) = position lexer).
Proof.
  intros H.
  specialize (H NULL lexer_backslash_x all_valid eq_refl).
  discriminate H.
Qed.

Lemma C4_witness :
  let r := tree_sitter_zsh_external_scanner_scan NULL lexer_backslash_x
             all_valid in
  fst r = false /\
  position (snd r) = S (position lexer_backslash_x) /\
  snd (tree_sitter_zsh_external_scanner_scan NULL lexer_backslash_x none_valid)
  = lexer_backslash_x.
Proof.
  cbv zeta. split; [reflexivity|]. split.
  - destruct (C4_false_leaves_cursor_or_skips_backslash NULL all_valid
                lexer_backslash_x eq_refl) as [Hskip _].
    destruct (Hskip (conj eq_refl eq_refl)) as (_ & _ & Hpos).
    exact Hpos.
  - destruct (C4_false_leaves_cursor_or_skips_backslash NULL none_valid
                lexer_backslash_x eq_refl) as [_ Hsame].
    apply Hsame. intros [Hv _]. discriminate Hv.
Defined.

Lemma C5_witness :
  all_valid UNQUOTED_WHITESPACE = true /\
  lookahead lexer_backslash_spaces_x = CH_BACKSLASH /\
  let r := tree_sitter_zsh_external_scanner_scan NULL lexer_backslash_spaces_x
             all_valid in
  exists ws,
    advance_calls lexer_backslash_spaces_x (snd r)
      = (CH_BACKSLASH, false) :: consumed_entries ws /\
    Forall (fun c => is_whitespace c = true) ws /\
    count_occ Z.eq_dec
      (map fst (advance_calls lexer_backslash_spaces_x (snd r))) CH_BACKSLASH
      = 1%nat /\
    position (snd r) = S (position lexer_backslash_spaces_x + length ws) /\
    ~ In CH_BACKSLASH (token_text (position lexer_backslash_spaces_x) (snd r)).
Proof.
  split; [reflexivity|]. split; [reflexivity|].
  exact (C5_backslash_advanced_once_excluded NULL all_valid
           lexer_backslash_spaces_x eq_refl eq_refl).
Defined.

Lemma C6_witness :
  all_valid UNQUOTED_WHITESPACE = true /\
  is_whitespace CH_x = false /\
  let r := tree_sitter_zsh_external_scanner_scan NULL lexer_backslash_spaces_x
             all_valid in
  fst r = true /\
  steps_over lexer_backslash_spaces_x [CH_BACKSLASH; CH_SPACE; CH_SPACE]
             (snd r) /\
  position (snd r) = (position lexer_backslash_spaces_x + 3)%nat /\
  remaining (snd r) = [CH_x] /\
  lookahead (snd r) = CH_x /\
  result_symbol (snd r) = TokenType_value UNQUOTED_WHITESPACE.
Proof.
  split; [reflexivity|]. split; [reflexivity|].
  exact (C6_backslash_two_spaces NULL all_valid [] CH_x [] 7 eq_refl eq_refl).
Defined.

Lemma C7_witness :
  remaining lexer_backslash_spaces_x = remaining lexer_backslash_spaces_x_later /\
  all_valid UNQUOTED_WHITESPACE = all_valid UNQUOTED_WHITESPACE /\
  let r1 := tree_sitter_zsh_external_scanner_scan NULL
              lexer_backslash_spaces_x all_valid in
  let r2 := tree_sitter_zsh_external_scanner_scan (Ptr 16)
              lexer_backslash_spaces_x_later all_valid in
  fst r1 = fst r2 /\
  (position (snd r1) - position lexer_backslash_spaces_x
   = position (snd r2) - position lexer_backslash_spaces_x_later)%nat /\
  remaining (snd r1) = remaining (snd r2) /\
  advance_calls lexer_backslash_spaces_x (snd r1)
  = advance_calls lexer_backslash_spaces_x_later (snd r2) /\
  (lexer_backslash_spaces_x = lexer_backslash_spaces_x_later -> r1 = r2).
Proof.
  split; [reflexivity|]. split; [reflexivity|].
  exact (C7_scan_deterministic NULL (Ptr 16) lexer_backslash_spaces_x
           lexer_backslash_spaces_x_later all_valid all_valid
           eq_refl eq_refl).
Defined.

Lemma C8_witness :
  remaining lexer_at_eof = [] /\
  tree_sitter_zsh_external_scanner_scan NULL lexer_at_eof all_valid
  = (false, lexer_at_eof) /\
  lookahead lexer_whitespace_x <> CH_BACKSLASH /\
  exists cs,
    steps_over lexer_whitespace_x cs
      (snd (tree_sitter_zsh_external_scanner_scan NULL lexer_whitespace_x
              all_valid)) /\
    count_occ Z.eq_dec cs CH_BACKSLASH = 0%nat.
Proof.
  split; [reflexivity|]. split.
  - destruct (C8_scan_terminates NULL all_valid lexer_at_eof)
      as (_ & _ & _ & Heof).
    exact (Heof eq_refl).
  - assert (Hb : lookahead lexer_whitespace_x <> CH_BACKSLASH) by discriminate.
    split; [exact Hb|].
    destruct (C8_scan_terminates NULL all_valid lexer_whitespace_x)
      as (_ & _ & (cs & Hsteps & _ & _ & Hnone) & _).
    exists cs. split; [exact Hsteps | exact (Hnone Hb)].
Defined.

Lemma C9_witness :
  let r := tree_sitter_zsh_external_scanner_scan NULL lexer_backslash_x
             all_valid in
  fst r = false /\ result_symbol (snd r) = 7.
Proof.
  cbv zeta. split; [reflexivity|].
  destruct (C9_only_position_and_result_symbol NULL all_valid
              lexer_backslash_x) as (_ & Hfalse & _).
  exact (Hfalse eq_refl).
Defined.

(** * Further properties of the scan hook *)

Lemma backslash_prefix_skip (cs : list Z) :
  backslash_prefix cs ++ skip_backslash cs = cs.
Proof.
  destruct cs as [|c rest]; simpl; [reflexivity|].
  destruct (c =? CH_BACKSLASH); reflexivity.
Qed.

Lemma ws_run_stop (cs : list Z) :
  is_whitespace (first_char cs) = false -> ws_run cs = [] /\ ws_rest cs = cs.
Proof.
  destruct cs as [|c rest]; simpl; intros H.
  - split; reflexivity.
  - rewrite H. split; reflexivity.
Qed.

Lemma ws_run_app_stop (pre : list Z) (x : Z) (tail : list Z) :
  Forall (fun c => is_whitespace c = true) pre ->
  is_whitespace x = false ->
  ws_run (pre ++ x :: tail) = pre /\ ws_rest (pre ++ x :: tail) = x :: tail.
Proof.
  intros Hpre Hx. induction Hpre as [|c pre Hc _ IH]; simpl.
  - rewrite Hx. split; reflexivity.
  - rewrite Hc. destruct IH as [-> ->]. split; reflexivity.
Qed.

Lemma ws_run_only_whitespace (cs : list Z) :
  Forall (fun c => is_whitespace c = true) cs ->
  ws_run cs = cs /\ ws_rest cs = [].
Proof.
  induction 1 as [|c cs Hc _ IH]; simpl.
  - split; reflexivity.
  - rewrite Hc. destruct IH as [-> ->]. split; reflexivity.
Qed.

Lemma lexer_eta (lexer : TSLexer) :
  mkTSLexer (consumed lexer) (remaining lexer) (result_symbol lexer) = lexer.
Proof. destruct lexer; reflexivity. Qed.

Lemma consumed_entries_inj (cs cs' : list Z) :
  consumed_entries cs = consumed_entries cs' -> cs = cs'.
Proof.
  revert cs'. induction cs as [|c cs IH]; intros [|c' cs'] H;
    try discriminate H; [reflexivity|].
  simpl in H. injection H as -> H. now rewrite (IH _ H).
Qed.

Lemma skip_backslash_whitespace (lexer : TSLexer) :
  is_whitespace (lookahead lexer) = true ->
  skip_backslash (remaining lexer) = remaining lexer /\
  backslash_prefix (remaining lexer) = [].
Proof.
  unfold lookahead, skip_backslash, backslash_prefix.
  destruct (remaining lexer) as [|c rest]; [split; reflexivity|].
  intros Hc. destruct (Z.eqb_spec c CH_BACKSLASH) as [E|_].
  - rewrite E in Hc. discriminate Hc.
  - split; reflexivity.
Qed.

Lemma skip_backslash_other (lexer : TSLexer) :
  lookahead lexer <> CH_BACKSLASH ->
  skip_backslash (remaining lexer) = remaining lexer /\
  backslash_prefix (remaining lexer) = [].
Proof.
  unfold lookahead, skip_backslash, backslash_prefix.
  destruct (remaining lexer) as [|c rest]; [split; reflexivity|].
  intros Hc. destruct (Z.eqb_spec c CH_BACKSLASH) as [E|_].
  - contradiction.
  - split; reflexivity.
Qed.

(** With UNQUOTED_WHITESPACE valid, the call in closed form: the body is
    the text behind the optional leading backslash. *)
Lemma scan_valid_eq payload lexer (valid_symbols : valid_symbols_t) :
  valid_symbols UNQUOTED_WHITESPACE = true ->
  tree_sitter_zsh_external_scanner_scan payload lexer valid_symbols =
    let body := skip_backslash (remaining lexer) in
    let matched := is_whitespace (first_char body) in
    (matched,
     mkTSLexer
       (consumed lexer
          ++ consumed_entries
               (backslash_prefix (remaining lexer) ++ ws_run body))
       (ws_rest body)
       (if matched then TokenType_value UNQUOTED_WHITESPACE
        else result_symbol lexer)).
Proof.
  intros Hvalid. cbv zeta.
  destruct (scan_view_of payload lexer valid_symbols)
    as [Hv | Hv Hws | Hv Hb Hws | rest Hv Hrem Hws | rest Hv Hrem Hws].
  - congruence.
  - destruct (skip_backslash_whitespace _ Hws) as [-> ->].
    change (first_char (remaining lexer)) with (lookahead lexer).
    rewrite Hws. reflexivity.
  - destruct (skip_backslash_other _ Hb) as [-> ->].
    change (first_char (remaining lexer)) with (lookahead lexer).
    rewrite Hws.
    destruct (ws_run_stop (remaining lexer) Hws) as [-> ->].
    simpl. rewrite app_nil_r. now rewrite lexer_eta.
  - rewrite Hrem. simpl skip_backslash. simpl backslash_prefix.
    rewrite Hws. reflexivity.
  - rewrite Hrem. simpl skip_backslash. simpl backslash_prefix.
    rewrite Hws. destruct (ws_run_stop rest Hws) as [-> ->]. reflexivity.
Qed.

(** A text that is its own whitespace run in front of [x] is whitespace
    only, and [x] is not whitespace. *)
Lemma ws_run_self (pre : list Z) (x : Z) (tail : list Z) :
  pre = ws_run (pre ++ x :: tail) ->
  Forall (fun c => is_whitespace c = true) pre /\ is_whitespace x = false.
Proof.
  intros H. split.
  - rewrite H. apply ws_run_all_whitespace.
  - pose proof (ws_run_rest (pre ++ x :: tail)) as Hsplit.
    rewrite <- H in Hsplit. apply app_inv_head in Hsplit.
    pose proof (ws_rest_first_char (pre ++ x :: tail)) as Hfirst.
    rewrite Hsplit in Hfirst. exact Hfirst.
Qed.

Lemma first_char_app (pre : list Z) (x : Z) (tail tail' : list Z) :
  first_char (pre ++ x :: tail') = first_char (pre ++ x :: tail).
Proof. destruct pre; reflexivity. Qed.

(** What a call with the symbol valid steps over determines how the call
    goes on any text that agrees up to one character behind it. *)
Lemma consumed_part_local (cs : list Z) (x : Z) (tail : list Z) :
  cs = backslash_prefix (cs ++ x :: tail)
         ++ ws_run (skip_backslash (cs ++ x :: tail)) ->
  forall tail',
    backslash_prefix (cs ++ x :: tail') = backslash_prefix (cs ++ x :: tail) /\
    ws_run (skip_backslash (cs ++ x :: tail'))
      = ws_run (skip_backslash (cs ++ x :: tail)) /\
    first_char (skip_backslash (cs ++ x :: tail'))
      = first_char (skip_backslash (cs ++ x :: tail)) /\
    ws_rest (skip_backslash (cs ++ x :: tail')) = x :: tail'.
Proof.
  intros Hcs tail'.
  destruct cs as [|c cs0].
  - simpl in *. destruct (x =? CH_BACKSLASH) eqn:Hx; [discriminate Hcs|].
    simpl in Hcs. destruct (is_whitespace x) eqn:Hws; [discriminate Hcs|].
    simpl. rewrite Hws. conjuncts; reflexivity.
  - simpl in *. destruct (c =? CH_BACKSLASH) eqn:Hc.
    + simpl in Hcs. injection Hcs as Hrun.
      destruct (ws_run_self _ _ _ Hrun) as [Hall Hx].
      destruct (ws_run_app_stop cs0 x tail Hall Hx) as [-> _].
      destruct (ws_run_app_stop cs0 x tail' Hall Hx) as [-> ->].
      conjuncts; try reflexivity. apply first_char_app.
    + simpl in Hcs.
      change (c :: cs0 ++ x :: tail) with ((c :: cs0) ++ x :: tail) in Hcs.
      change (ws_run (c :: cs0 ++ x :: tail))
        with (ws_run ((c :: cs0) ++ x :: tail)) in Hcs.
      destruct (is_whitespace c) eqn:Hcw; [|discriminate Hcs].
      assert (Hself : c :: cs0 = ws_run ((c :: cs0) ++ x :: tail))
        by (simpl; rewrite Hcw; exact Hcs).
      destruct (ws_run_self _ _ _ Hself) as [Hall Hx].
      destruct (ws_run_app_stop (c :: cs0) x tail Hall Hx) as [E1 _].
      destruct (ws_run_app_stop (c :: cs0) x tail' Hall Hx) as [E2 E3].
      simpl app in E1, E2, E3. rewrite E1, E2, E3.
      conjuncts; reflexivity.
Qed.

(** The closed form, read field by field. *)
Lemma scan_valid_fields payload lexer (valid_symbols : valid_symbols_t) :
  valid_symbols UNQUOTED_WHITESPACE = true ->
  let body := skip_backslash (remaining lexer) in
  let r := tree_sitter_zsh_external_scanner_scan payload lexer valid_symbols in
  fst r = is_whitespace (first_char body) /\
  steps_over lexer (backslash_prefix (remaining lexer) ++ ws_run body) (snd r) /\
  remaining (snd r) = ws_rest body.
Proof.
  intros Hv body r. subst r.
  rewrite (scan_valid_eq _ _ _ Hv). cbv zeta. cbn [fst snd]. fold body.
  conjuncts; try reflexivity.
  split; simpl.
  - reflexivity.
  - rewrite <- app_assoc, ws_run_rest. symmetry. apply backslash_prefix_skip.
Qed.

(** X1: with UNQUOTED_WHITESPACE valid, the text at the cursor decides the
    whole call.  Let the body be the text behind the optional leading
    backslash.  The call returns true exactly when the body starts with a
    space, tab or newline; it steps over the optional backslash and the
    whitespace run of the body, and over nothing else; it leaves the rest of
    the body; the matched-kind slot is set on true and kept on false. *)
Theorem X1_scan_closed_form payload lexer (valid_symbols : valid_symbols_t) :
  valid_symbols UNQUOTED_WHITESPACE = true ->
  let body := skip_backslash (remaining lexer) in
  let r := tree_sitter_zsh_external_scanner_scan payload lexer valid_symbols in
  fst r = is_whitespace (first_char body) /\
  steps_over lexer (backslash_prefix (remaining lexer) ++ ws_run body) (snd r) /\
  remaining (snd r) = ws_rest body /\
  result_symbol (snd r) =
    (if fst r then TokenType_value UNQUOTED_WHITESPACE
     else result_symbol lexer).
Proof.
  intros Hv body r.
  destruct (scan_valid_fields payload lexer valid_symbols Hv)
    as (Hb & Hsteps & Hrem).
  fold body in Hb, Hsteps, Hrem. fold r in Hb, Hsteps, Hrem.
  conjuncts; try assumption.
  subst r. rewrite (scan_valid_eq _ _ _ Hv). reflexivity.
Qed.

(** X2: a call leaves the cursor as it was exactly when
    UNQUOTED_WHITESPACE is not valid or the lookahead is neither a backslash
    nor whitespace (the end of the stream included); in every other case the
    cursor is strictly further, whatever the call returns. *)
Theorem X2_cursor_moves_iff payload lexer (valid_symbols : valid_symbols_t) :
  let r := tree_sitter_zsh_external_scanner_scan payload lexer valid_symbols in
  let stays :=
    valid_symbols UNQUOTED_WHITESPACE = false \/
    (lookahead lexer <> CH_BACKSLASH /\
     is_whitespace (lookahead lexer) = false) in
  (stays -> snd r = lexer) /\
  (~ stays -> (position lexer < position (snd r))%nat).
Proof.
  intros r stays. subst r stays.
  destruct (scan_view_of payload lexer valid_symbols)
    as [Hv | Hv Hws | Hv Hb Hws | rest Hv Hrem Hws | rest Hv Hrem Hws];
    cbn [snd].
  - split; [reflexivity|]. intros Hn. exfalso. apply Hn. now left.
  - split.
    + intros [Hv' | [_ Hws']]; congruence.
    + intros _. unfold position; simpl.
      destruct (remaining lexer) as [|c rest] eqn:Hrem;
        [unfold lookahead in Hws; rewrite Hrem in Hws; discriminate Hws|].
      unfold lookahead in Hws. rewrite Hrem in Hws. simpl. rewrite Hws.
      rewrite length_app. simpl. lia.
  - split; [reflexivity|]. intros Hn. exfalso. apply Hn. right. now split.
  - assert (Hb : lookahead lexer = CH_BACKSLASH)
      by (unfold lookahead; now rewrite Hrem).
    split.
    + intros [Hv' | [Hb' _]]; congruence.
    + intros _. unfold position; simpl. rewrite length_app. simpl. lia.
  - assert (Hb : lookahead lexer = CH_BACKSLASH)
      by (unfold lookahead; now rewrite Hrem).
    split.
    + intros [Hv' | [Hb' _]]; congruence.
    + intros _. unfold position; simpl. rewrite length_app. simpl. lia.
Qed.

(** X3: a call returns true only with UNQUOTED_WHITESPACE valid and only
    after stepping over at least one space, tab or newline: what it
    consumed is the optional backslash, then a whitespace character, then
    whitespace only.  No empty match is ever reported. *)
Theorem X3_true_consumes_whitespace payload lexer
  (valid_symbols : valid_symbols_t) :
  let r := tree_sitter_zsh_external_scanner_scan payload lexer valid_symbols in
  fst r = true ->
  valid_symbols UNQUOTED_WHITESPACE = true /\
  (position lexer < position (snd r))%nat /\
  exists w ws,
    steps_over lexer (backslash_prefix (remaining lexer) ++ w :: ws) (snd r) /\
    is_whitespace w = true /\
    Forall (fun c => is_whitespace c = true) ws.
Proof.
  intros r Htrue. subst r.
  destruct (valid_symbols UNQUOTED_WHITESPACE) eqn:Hv.
  2: { rewrite (scan_not_valid _ _ _ Hv) in Htrue. discriminate Htrue. }
  destruct (scan_valid_fields payload lexer valid_symbols Hv)
    as (Hb & Hsteps & _).
  rewrite Htrue in Hb. symmetry in Hb.
  destruct (skip_backslash (remaining lexer)) as [|w body'] eqn:Hbody;
    [discriminate Hb|].
  simpl in Hb. simpl ws_run in Hsteps. rewrite Hb in Hsteps.
  conjuncts.
  - reflexivity.
  - rewrite (steps_over_position _ _ _ Hsteps), length_app. simpl. lia.
  - exists w, (ws_run body'). conjuncts.
    + exact Hsteps.
    + exact Hb.
    + apply ws_run_all_whitespace.
Qed.

(** X4: with UNQUOTED_WHITESPACE valid, whatever the call returns, the
    cursor it hands back is never in front of a space, tab or newline: on
    true the loop has run the whitespace out, and on false the lookahead
    tested (behind the optional backslash) was not whitespace. *)
Theorem X4_lookahead_after_scan payload lexer (valid_symbols : valid_symbols_t) :
  valid_symbols UNQUOTED_WHITESPACE = true ->
  let r := tree_sitter_zsh_external_scanner_scan payload lexer valid_symbols in
  is_whitespace (lookahead (snd r)) = false.
Proof.
  intros Hv r.
  destruct (scan_valid_fields payload lexer valid_symbols Hv) as (_ & _ & Hrem).
  fold r in Hrem. unfold lookahead. rewrite Hrem.
  apply ws_rest_first_char.
Qed.

(** X5: calling scan again on the cursor a call handed back (both with
    UNQUOTED_WHITESPACE valid, any payloads): the second call returns true
    exactly when the text left starts with a backslash that has a space,
    tab or newline behind it; if the text left does not start with a
    backslash, the second call returns false and leaves the cursor. *)
Theorem X5_scan_again payload payload' lexer
  (valid_symbols valid_symbols' : valid_symbols_t) :
  valid_symbols UNQUOTED_WHITESPACE = true ->
  valid_symbols' UNQUOTED_WHITESPACE = true ->
  let r1 := tree_sitter_zsh_external_scanner_scan payload lexer valid_symbols in
  let r2 := tree_sitter_zsh_external_scanner_scan payload' (snd r1)
              valid_symbols' in
  (fst r2 = true <->
   exists rest, remaining (snd r1) = CH_BACKSLASH :: rest /\
                is_whitespace (first_char rest) = true) /\
  (lookahead (snd r1) <> CH_BACKSLASH -> r2 = (false, snd r1)).
Proof.
  intros Hv Hv' r1 r2.
  destruct (scan_valid_fields payload lexer valid_symbols Hv)
    as (_ & _ & Hrem1).
  fold r1 in Hrem1.
  assert (Hla : is_whitespace (lookahead (snd r1)) = false)
    by (unfold lookahead; rewrite Hrem1; apply ws_rest_first_char).
  subst r2. split.
  - split.
    + intros Htrue.
      destruct (scan_view_of payload' (snd r1) valid_symbols')
        as [H | H Hws | H Hb Hws | rest H Hrem Hws | rest H Hrem Hws];
        cbn [fst] in Htrue; try discriminate Htrue.
      * congruence.
      * exists rest. split; assumption.
    + intros (rest & Hrem & Hws).
      rewrite (scan_backslash_whitespace _ _ _ _ Hv' Hrem Hws). reflexivity.
  - intros Hb. now apply scan_other.
Qed.

(** X6: every call of advance a call makes passes the flag false, at both
    places of the source, and the log of what was consumed before the call
    is kept in front of them. *)
Theorem X6_advance_flag_always_false payload lexer (valid_symbols : valid_symbols_t) :
  let r := tree_sitter_zsh_external_scanner_scan payload lexer valid_symbols in
  Forall (fun call => snd call = false) (advance_calls lexer (snd r)) /\
  consumed (snd r) = consumed lexer ++ advance_calls lexer (snd r).
Proof.
  intros r.
  assert (Hentries : forall cs,
            Forall (fun call : Z * bool => snd call = false)
                   (consumed_entries cs)).
  { induction cs as [|c cs IH]; simpl; constructor; [reflexivity | exact IH]. }
  assert (Hshape : exists cs,
            consumed (snd r) = consumed lexer ++ consumed_entries cs).
  { subst r.
    destruct (scan_view_of payload lexer valid_symbols)
      as [Hv | Hv Hws | Hv Hb Hws | rest Hv Hrem Hws | rest Hv Hrem Hws];
      cbn [snd]; cbn [consumed].
    - exists []. simpl. now rewrite app_nil_r.
    - exists (ws_run (remaining lexer)). reflexivity.
    - exists []. simpl. now rewrite app_nil_r.
    - exists (CH_BACKSLASH :: ws_run rest). reflexivity.
    - exists [CH_BACKSLASH]. reflexivity. }
  destruct Hshape as [cs Hcs].
  assert (Hcalls : advance_calls lexer (snd r) = consumed_entries cs).
  { unfold advance_calls, position. rewrite Hcs. apply skipn_length_app. }
  rewrite Hcalls. split; [apply Hentries | exact Hcs].
Qed.

(** X7: a call looks at most one character past what it steps over.  If a
    call on a text steps over exactly [cs] and [x] is the character behind
    [cs], then on any text that starts with the same [cs] and [x] the call
    returns the same boolean, steps over the same [cs] and leaves the same
    content in the matched-kind slot. *)
Theorem X7_reads_one_character_ahead payload (valid_symbols : valid_symbols_t)
  (before : list (Z * bool)) (old_symbol : Z)
  (cs : list Z) (x : Z) (tail tail' : list Z) :
  let lexer := mkTSLexer before (cs ++ x :: tail) old_symbol in
  let lexer' := mkTSLexer before (cs ++ x :: tail') old_symbol in
  let r := tree_sitter_zsh_external_scanner_scan payload lexer valid_symbols in
  let r' := tree_sitter_zsh_external_scanner_scan payload lexer' valid_symbols in
  steps_over lexer cs (snd r) ->
  fst r' = fst r /\
  steps_over lexer' cs (snd r') /\
  remaining (snd r') = x :: tail' /\
  result_symbol (snd r') = result_symbol (snd r).
Proof.
  intros lexer lexer' r r' [Hcons _].
  destruct (valid_symbols UNQUOTED_WHITESPACE) eqn:Hv.
  - subst r r'.
    rewrite (scan_valid_eq payload lexer _ Hv) in Hcons |- *.
    rewrite (scan_valid_eq payload lexer' _ Hv).
    subst lexer lexer'.
    cbv zeta in *. cbn [fst snd] in *. simpl consumed in Hcons.
    simpl remaining in *.
    apply app_inv_head, consumed_entries_inj in Hcons. symmetry in Hcons.
    destruct (consumed_part_local cs x tail Hcons tail')
      as (Hp & Hrun & Hfirst & Hrest).
    rewrite Hp, Hrun, Hfirst, Hrest, <- Hcons.
    conjuncts; try reflexivity.
    split; reflexivity.
  - subst r r'.
    rewrite (scan_not_valid payload lexer _ Hv) in Hcons |- *.
    rewrite (scan_not_valid payload lexer' _ Hv).
    subst lexer lexer'.
    cbn [fst snd] in *. simpl consumed in Hcons.
    rewrite <- (app_nil_r before) in Hcons at 1.
    apply app_inv_head in Hcons.
    destruct cs as [|c cs0]; [|discriminate Hcons].
    conjuncts; try reflexivity.
    split; simpl; [now rewrite app_nil_r | reflexivity].
Qed.

(** X9: whitespace that runs to the end of the stream.  With
    UNQUOTED_WHITESPACE valid, if the text behind the optional backslash is
    not empty and holds spaces, tabs and newlines only, the call returns
    true and consumes the whole text: the loop stops at the end of the
    stream, where the lookahead is the end-of-stream value. *)
Theorem X9_whitespace_to_end_of_stream payload lexer
  (valid_symbols : valid_symbols_t) :
  valid_symbols UNQUOTED_WHITESPACE = true ->
  skip_backslash (remaining lexer) <> [] ->
  Forall (fun c => is_whitespace c = true) (skip_backslash (remaining lexer)) ->
  let r := tree_sitter_zsh_external_scanner_scan payload lexer valid_symbols in
  fst r = true /\
  remaining (snd r) = [] /\
  lookahead (snd r) = EOF_LOOKAHEAD /\
  steps_over lexer (remaining lexer) (snd r) /\
  position (snd r) = (position lexer + length (remaining lexer))%nat.
Proof.
  intros Hv Hne Hall r.
  destruct (scan_valid_fields payload lexer valid_symbols Hv)
    as (Hb & Hsteps & Hrem).
  fold r in Hb, Hsteps, Hrem.
  destruct (ws_run_only_whitespace _ Hall) as [Hrun Hrest].
  rewrite Hrun, backslash_prefix_skip in Hsteps. rewrite Hrest in Hrem.
  conjuncts.
  - rewrite Hb. destruct (skip_backslash (remaining lexer)) as [|c body];
      [contradiction|]. now inversion Hall.
  - exact Hrem.
  - unfold lookahead. now rewrite Hrem.
  - exact Hsteps.
  - apply (steps_over_position _ _ _ Hsteps).
Qed.

(** * The further properties on sample inputs *)

Lemma X1_witness :
  all_valid UNQUOTED_WHITESPACE = true /\
  let r := tree_sitter_zsh_external_scanner_scan NULL lexer_backslash_spaces_x
             all_valid in
  fst r = true /\
  steps_over lexer_backslash_spaces_x [CH_BACKSLASH; CH_SPACE; CH_SPACE]
             (snd r) /\
  remaining (snd r) = [CH_x] /\
  result_symbol (snd r) = 0.
Proof.
  split; [reflexivity|].
  destruct (X1_scan_closed_form NULL lexer_backslash_spaces_x all_valid eq_refl)
    as (Hb & Hsteps & Hrem & Hsym).
  cbv zeta. conjuncts.
  - exact Hb.
  - exact Hsteps.
  - exact Hrem.
  - exact Hsym.
Defined.

Lemma X2_witness :
  snd (tree_sitter_zsh_external_scanner_scan NULL lexer_at_eof all_valid)
  = lexer_at_eof /\
  (position lexer_backslash_x
   < position (snd (tree_sitter_zsh_external_scanner_scan NULL
                      lexer_backslash_x all_valid)))%nat.
Proof.
  split.
  - destruct (X2_cursor_moves_iff NULL lexer_at_eof all_valid) as [Hstay _].
    apply Hstay. right. split; [discriminate | reflexivity].
  - destruct (X2_cursor_moves_iff NULL lexer_backslash_x all_valid)
      as [_ Hmove].
    apply Hmove. intros [Hv | [Hb _]]; [discriminate Hv|].
    apply Hb. reflexivity.
Defined.

Lemma X3_witness :
  fst (tree_sitter_zsh_external_scanner_scan NULL lexer_backslash_spaces_x
         all_valid) = true /\
  (position lexer_backslash_spaces_x
   < position (snd (tree_sitter_zsh_external_scanner_scan NULL
                      lexer_backslash_spaces_x all_valid)))%nat.
Proof.
  split; [reflexivity|].
  destruct (X3_true_consumes_whitespace NULL lexer_backslash_spaces_x
              all_valid eq_refl) as (_ & Hpos & _).
  exact Hpos.
Defined.

Lemma X4_witness :
  all_valid UNQUOTED_WHITESPACE = true /\
  is_whitespace
    (lookahead (snd (tree_sitter_zsh_external_scanner_scan NULL
                       lexer_whitespace_x all_valid))) = false.
Proof.
  split; [reflexivity|].
  exact (X4_lookahead_after_scan NULL lexer_whitespace_x all_valid eq_refl).
Defined.

Lemma X5_witness :
  all_valid UNQUOTED_WHITESPACE = true /\
  let r1 := tree_sitter_zsh_external_scanner_scan NULL lexer_whitespace_x
              all_valid in
  lookahead (snd r1) <> CH_BACKSLASH /\
  tree_sitter_zsh_external_scanner_scan (Ptr 16) (snd r1) all_valid
  = (false, snd r1).
Proof.
  split; [reflexivity|]. cbv zeta.
  assert (Hb : lookahead
                 (snd (tree_sitter_zsh_external_scanner_scan NULL
                         lexer_whitespace_x all_valid)) <> CH_BACKSLASH)
    by discriminate.
  split; [exact Hb|].
  destruct (X5_scan_again NULL (Ptr 16) lexer_whitespace_x all_valid all_valid
              eq_refl eq_refl) as [_ Hagain].
  exact (Hagain Hb).
Defined.

Lemma X7_witness :
  let lexer := mkTSLexer [] ([CH_BACKSLASH; CH_SPACE] ++ CH_x :: []) 7 in
  let lexer' := mkTSLexer [] ([CH_BACKSLASH; CH_SPACE] ++ CH_x :: [CH_SPACE]) 7 in
  let r := tree_sitter_zsh_external_scanner_scan NULL lexer all_valid in
  let r' := tree_sitter_zsh_external_scanner_scan NULL lexer' all_valid in
  steps_over lexer [CH_BACKSLASH; CH_SPACE] (snd r) /\
  fst r' = fst r /\
  steps_over lexer' [CH_BACKSLASH; CH_SPACE] (snd r') /\
  remaining (snd r') = [CH_x; CH_SPACE] /\
  result_symbol (snd r') = result_symbol (snd r).
Proof.
  cbv zeta.
  assert (Hsteps :
            steps_over
              (mkTSLexer [] ([CH_BACKSLASH; CH_SPACE] ++ CH_x :: []) 7)
              [CH_BACKSLASH; CH_SPACE]
              (snd (tree_sitter_zsh_external_scanner_scan NULL
                      (mkTSLexer [] ([CH_BACKSLASH; CH_SPACE] ++ CH_x :: []) 7)
                      all_valid)))
    by (split; reflexivity).
  split; [exact Hsteps|].
  exact (X7_reads_one_character_ahead NULL all_valid [] 7
           [CH_BACKSLASH; CH_SPACE] CH_x [] [CH_SPACE] Hsteps).
Defined.

Lemma X9_witness :
  all_valid UNQUOTED_WHITESPACE = true /\
  skip_backslash (remaining lexer_backslash_spaces_eof) <> [] /\
  let r := tree_sitter_zsh_external_scanner_scan NULL
             lexer_backslash_spaces_eof all_valid in
  fst r = true /\
  remaining (snd r) = [] /\
  lookahead (snd r) = EOF_LOOKAHEAD /\
  steps_over lexer_backslash_spaces_eof
             (remaining lexer_backslash_spaces_eof) (snd r) /\
  position (snd r)
  = (position lexer_backslash_spaces_eof
     + length (remaining lexer_backslash_spaces_eof))%nat.
Proof.
  split; [reflexivity|].
  assert (Hne : skip_backslash (remaining lexer_backslash_spaces_eof) <> [])
    by discriminate.
  split; [exact Hne|].
  apply (X9_whitespace_to_end_of_stream NULL lexer_backslash_spaces_eof
           all_valid eq_refl Hne).
  simpl. repeat constructor.
Defined.
